(** * pip-poetry-and-uv: [src/main.py]

    A shallow embedding of the two functions of [src/main.py],

      - [load_data], which builds a fixed pandas [DataFrame], and
      - [query_data], which registers a [DataFrame] as table [t] in a new
        in-memory DuckDB connection, runs one fixed [SELECT] on it and
        returns the result as a [DataFrame],

    together with the part of pandas and DuckDB that the two functions go
    through: the statement is parsed from the text in the source, bound
    against the scanned frame and run.  What is taken from the two
    libraries:

      - a pandas column of Python ints has dtype [int64] and is scanned as
        [BIGINT]; an [object] column of [str] is scanned as [VARCHAR]; an
        [object] column without cells (what pandas builds from an empty
        list) gives the engine no cell to infer a type from and is scanned
        with the type of [NULL], which the binder casts to the type an
        operator asks for;
      - [duckdb.connect()] without arguments opens a new in-memory database
        that no other connection sees; [register] binds the frame (it
        refuses a frame without columns) and keeps a reference to it; the
        frame is read when a statement runs; [.df()] builds a new frame;
      - identifiers are matched without regard to case: a name refers to
        the first column that carries it up to case, and a column reference
        is named in the result as the table spells it;
      - [*] on a [BIGINT] and an integer literal is a [BIGINT], computed
        with an overflow check that raises an out-of-range error; there is
        no [*] on [VARCHAR], which the binder rejects before any row is
        read;
      - [WHERE] is applied before the select list is computed;
      - [ORDER BY] returns the rows sorted by the key and fixes nothing on
        the order of rows with equal keys.

    Python objects live in a heap, so that aliasing, freshness and the
    absence of mutation can be stated.  A call threads the heap through,
    also when it raises: what it did before raising stays done. *)

From Stdlib Require Import ZArith String Ascii List Sorted Permutation Lia.
From stdpp Require Import base option list gmap strings sorting pretty.

Open Scope string_scope.
Open Scope Z_scope.

(** ** Exceptions and the error monad *)

(** The exception classes of the [duckdb] module that the fixed statement can
    meet. *)
Inductive exn : Set :=
  | ParserException        (* the text is not a statement *)
  | BinderException        (* unknown column, no matching operator *)
  | OutOfRangeException    (* overflow of a checked integer operation *)
  | CatalogException       (* unknown table *)
  | InvalidInputException  (* a frame without columns; no open result set *)
  | InternalException.

Inductive result (A : Type) : Type :=
  | Ok (a : A)
  | Raise (e : exn).
Arguments Ok {A} a.
Arguments Raise {A} e.

#[global] Instance result_ret : MRet result := λ A a, Ok a.
#[global] Instance result_bind : MBind result := λ A B f m,
  match m with Ok a => f a | Raise e => Raise e end.
#[global] Instance result_fmap : FMap result := λ A B f m,
  match m with Ok a => Ok (f a) | Raise e => Raise e end.

#[global] Instance exn_eq_dec : EqDecision exn.
Proof. solve_decision. Defined.

(** ** pandas *)

Module Pandas.

(** A column is a typed array: dtype [int64], or dtype [object] holding
    [str].  Missing values are outside the model. *)
Inductive column : Type :=
  | Int64Col (zs : list Z)
  | ObjectCol (ss : list string).

#[global] Instance column_eq_dec : EqDecision column.
Proof. solve_decision. Defined.

(** A frame is its ordered sequence of named columns. *)
Abbreviation DataFrame := (list (string * column)).

Definition col_len (c : column) : nat :=
  match c with
  | Int64Col zs => length zs
  | ObjectCol ss => length ss
  end.

(** [len(df)] *)
Definition nrows (df : DataFrame) : nat :=
  match df with
  | [] => 0%nat
  | (_, c) :: _ => col_len c
  end.

(** [list(df.columns)] *)
Definition columns (df : DataFrame) : list string := df.*1.

(** [df[name]], the first column of that exact name. *)
Definition get (name : string) (df : DataFrame) : option column :=
  snd <$> (snd <$> list_find (λ c, c.1 = name) df).

Definition int64_min : Z := - 2 ^ 63.
Definition int64_max : Z := 2 ^ 63 - 1.
Definition in_int64 (z : Z) : Prop := int64_min ≤ z ≤ int64_max.
Definition in_int64b (z : Z) : bool :=
  (int64_min <=? z) && (z <=? int64_max).

Definition col_ok (c : column) : Prop :=
  match c with
  | Int64Col zs => Forall in_int64 zs
  | ObjectCol _ => True
  end.

End Pandas.
Export Pandas.

(** ** The Python heap *)

(** Object identity.  Only frames are tracked. *)
Definition loc := positive.
Abbreviation heap := (gmap loc DataFrame).

Definition alloc (d : DataFrame) (h : heap) : loc * heap :=
  let l := fresh (dom h) in (l, <[l := d]> h).

(** The column pandas makes of a list of (small) Python ints: [int64], or
    [object] when the list is empty and there is nothing to infer from. *)
Definition pd_column (zs : list Z) : column :=
  match zs with
  | [] => ObjectCol []
  | _ :: _ => Int64Col zs
  end.

(** [pd.DataFrame(data)] for a dict of lists of one length of (small) Python
    ints: the columns in the order of the keys. *)
Definition pd_DataFrame (data : list (string * list Z)) (h : heap) : loc * heap :=
  alloc ((λ kv, (kv.1, pd_column kv.2)) <$> data) h.

(** ** Calls *)

(** A call returns a value or raises, and leaves a heap behind in both
    cases. *)
Definition call (A : Type) : Type := heap → result A * heap.

#[global] Instance call_ret : MRet call := λ A a h, (Ok a, h).
#[global] Instance call_bind : MBind call := λ A B f m h,
  match m h with
  | (Ok a, h') => f a h'
  | (Raise e, h') => (Raise e, h')
  end.

(** A call that reads the heap and leaves it as it is. *)
Definition reading {A} (f : heap → result A) : call A := λ h, (f h, h).

(** A call that builds a new frame and returns its identity. *)
Definition new_frame (d : DataFrame) : call loc :=
  λ h, (Ok (alloc d h).1, (alloc d h).2).

(** ** DuckDB *)

Module DuckDB.

(** [SQLNULL] is the type of [NULL], which the engine gives to a column it
    could infer no type for. *)
Inductive logical_type : Set := BIGINT | VARCHAR | SQLNULL.

Inductive value : Type :=
  | VBigInt (z : Z)
  | VVarchar (s : string).

#[global] Instance logical_type_eq_dec : EqDecision logical_type.
Proof. solve_decision. Defined.

Abbreviation row := (list value).

Record table : Type := Table {
  tbl_schema : list (string * logical_type);
  tbl_rows : list row
}.

(** *** Scanning a registered frame *)

(** The type of an [object] column is inferred from its cells: [str] cells
    make it [VARCHAR]; without cells there is nothing to infer and the
    column has the type of [NULL]. *)
Definition col_type (c : column) : logical_type :=
  match c with
  | Int64Col _ => BIGINT
  | ObjectCol [] => SQLNULL
  | ObjectCol (_ :: _) => VARCHAR
  end.

Definition col_values (c : column) : list value :=
  match c with
  | Int64Col zs => VBigInt <$> zs
  | ObjectCol ss => VVarchar <$> ss
  end.

(** [n] rows out of columns of length [n]. *)
Fixpoint transpose (n : nat) (cols : list (list value)) : list row :=
  match cols with
  | [] => replicate n []
  | c :: cs => zip_with cons c (transpose n cs)
  end.

Definition pandas_scan (df : DataFrame) : table :=
  {| tbl_schema := (λ nc, (nc.1, col_type nc.2)) <$> df;
     tbl_rows := transpose (nrows df) ((λ nc, col_values nc.2) <$> df) |}.

(** *** Turning a result set into a frame: [.df()] *)

Definition get_int (v : value) : option Z :=
  match v with VBigInt z => Some z | _ => None end.
Definition get_str (v : value) : option string :=
  match v with VVarchar s => Some s | _ => None end.

(** A result set has no column of type [SQLNULL] (see [exchange_null]
    below); were there one, it would come out as a column of integers. *)
Definition column_of (ty : logical_type) (vs : list value) : column :=
  match ty with
  | BIGINT | SQLNULL => Int64Col (omap get_int vs)
  | VARCHAR => ObjectCol (omap get_str vs)
  end.

Definition nth_col (k : nat) (rows : list row) : list value :=
  omap (λ r : row, r !! k) rows.

Definition fetch_df (r : table) : DataFrame :=
  imap (λ k nt, (nt.1, column_of nt.2 (nth_col k (tbl_rows r)))) (tbl_schema r).

(** *** Statements *)

Inductive expr : Type :=
  | ColRef (name : string)
  | IntLit (z : Z)
  | Mul (a b : expr).

Inductive cond : Type :=
  | Ge (a b : expr).

Inductive direction : Set := ASC | DESC.

(** [SELECT select_list FROM from_table [WHERE c] [ORDER BY e dir]] *)
Record select_stmt : Type := Select {
  select_list : list (expr * option string);
  from_table : string;
  where_clause : option cond;
  order_by : option (expr * direction)
}.

(** *** Parsing

    The fragment of SQL that the statement of [query_data] is written in:
    [SELECT e [AS a], ... FROM t [WHERE e >= e] [ORDER BY e [ASC|DESC]]]
    with [e] a product of column names and integer literals.  Keywords are
    recognised in any case, and the select list may end in a comma. *)

Definition ascii_lower (c : ascii) : ascii :=
  let n := nat_of_ascii c in
  if (65 <=? n)%nat && (n <=? 90)%nat then ascii_of_nat (n + 32) else c.

Fixpoint lower (s : string) : string :=
  match s with
  | EmptyString => EmptyString
  | String c s' => String (ascii_lower c) (lower s')
  end.

Inductive token : Type :=
  | TWord (w : string)
  | TNum (z : Z)
  | TComma
  | TStar
  | TGe.

Definition is_digit (c : ascii) : bool :=
  let n := nat_of_ascii c in (48 <=? n)%nat && (n <=? 57)%nat.

Definition is_letter (c : ascii) : bool :=
  let n := nat_of_ascii (ascii_lower c) in
  ((97 <=? n)%nat && (n <=? 122)%nat) || bool_decide (c = "_"%char).

Fixpoint all_digits (s : string) : bool :=
  match s with
  | EmptyString => true
  | String c s' => is_digit c && all_digits s'
  end.

Fixpoint decimal (acc : Z) (s : string) : Z :=
  match s with
  | EmptyString => acc
  | String c s' => decimal (10 * acc + Z.of_nat (nat_of_ascii c - 48)) s'
  end.

Definition word_token (w : string) : token :=
  if all_digits w then TNum (decimal 0 w) else TWord w.

Definition flush (w : string) (acc : list token) : list token :=
  match w with
  | EmptyString => acc
  | _ => word_token w :: acc
  end.

(** [w] is the word being read, [acc] the tokens read so far, last first. *)
Fixpoint lex (s w : string) (acc : list token) : result (list token) :=
  match s with
  | EmptyString => Ok (reverse (flush w acc))
  | String c s' =>
      if is_digit c || is_letter c then lex s' (w +:+ String c EmptyString) acc
      else if bool_decide (c = " "%char) then lex s' EmptyString (flush w acc)
      else if bool_decide (c = ","%char) then
        lex s' EmptyString (TComma :: flush w acc)
      else if bool_decide (c = "*"%char) then
        lex s' EmptyString (TStar :: flush w acc)
      else if bool_decide (c = ">"%char) then
        match s' with
        | String "="%char s'' => lex s'' EmptyString (TGe :: flush w acc)
        | _ => Raise ParserException
        end
      else Raise ParserException
  end.

Definition keyword (k : string) (t : token) : bool :=
  match t with
  | TWord w => bool_decide (lower w = k)
  | _ => false
  end.

Definition reserved (w : string) : bool :=
  bool_decide (lower w ∈ ["select"; "from"; "where"; "order"; "by"; "as";
                          "asc"; "desc"]).

Definition parse_term (t : token) : result expr :=
  match t with
  | TWord w => if reserved w then Raise ParserException else Ok (ColRef w)
  | TNum z => Ok (IntLit z)
  | _ => Raise ParserException
  end.

Fixpoint parse_factors (lhs : expr) (ts : list token)
    : result (expr * list token) :=
  match ts with
  | TStar :: t :: ts' => e ← parse_term t; parse_factors (Mul lhs e) ts'
  | _ => Ok (lhs, ts)
  end.

Definition parse_expr (ts : list token) : result (expr * list token) :=
  match ts with
  | t :: ts' => e ← parse_term t; parse_factors e ts'
  | [] => Raise ParserException
  end.

Definition parse_alias (ts : list token) : option string * list token :=
  match ts with
  | TWord a :: TWord n :: ts' =>
      if bool_decide (lower a = "as") then (Some n, ts') else (None, ts)
  | _ => (None, ts)
  end.

Fixpoint parse_items (fuel : nat) (ts : list token)
    : result (list (expr * option string) * list token) :=
  match fuel with
  | O => Raise ParserException
  | S fuel' =>
      e ← parse_expr ts;
      let (alias, rest) := parse_alias e.2 in
      match rest with
      | TComma :: t :: rest' =>
          if keyword "from" t then Ok ([(e.1, alias)], t :: rest')
          else
            more ← parse_items fuel' (t :: rest');
            Ok ((e.1, alias) :: more.1, more.2)
      | _ => Ok ([(e.1, alias)], rest)
      end
  end.

Definition parse_where (ts : list token) : result (option cond * list token) :=
  match ts with
  | t :: ts' =>
      if keyword "where" t then
        a ← parse_expr ts';
        match a.2 with
        | TGe :: ts'' => b ← parse_expr ts''; Ok (Some (Ge a.1 b.1), b.2)
        | _ => Raise ParserException
        end
      else Ok (None, ts)
  | [] => Ok (None, ts)
  end.

Definition parse_direction (ts : list token) : direction * list token :=
  match ts with
  | t :: ts' =>
      if keyword "desc" t then (DESC, ts')
      else if keyword "asc" t then (ASC, ts')
      else (ASC, ts)
  | [] => (ASC, ts)
  end.

Definition parse_order (ts : list token)
    : result (option (expr * direction) * list token) :=
  match ts with
  | t1 :: t2 :: ts' =>
      if keyword "order" t1 && keyword "by" t2 then
        e ← parse_expr ts';
        let (d, rest) := parse_direction e.2 in
        Ok (Some (e.1, d), rest)
      else Ok (None, ts)
  | _ => Ok (None, ts)
  end.

Definition parse_select (ts : list token) : result select_stmt :=
  match ts with
  | t :: ts1 =>
      if keyword "select" t then
        items ← parse_items (length ts1) ts1;
        match items.2 with
        | f :: TWord tbl :: ts2 =>
            if keyword "from" f then
              w ← parse_where ts2;
              o ← parse_order w.2;
              match o.2 with
              | [] => Ok {| select_list := items.1; from_table := tbl;
                            where_clause := w.1; order_by := o.1 |}
              | _ => Raise ParserException
              end
            else Raise ParserException
        | _ => Raise ParserException
        end
      else Raise ParserException
  | [] => Raise ParserException
  end.

Definition parse (sql : string) : result select_stmt :=
  ts ← lex sql EmptyString []; parse_select ts.

(** *** Binding *)

(** Identifiers are compared without regard to case. *)
Definition find_column (name : string) (schema : list (string * logical_type))
    : option (nat * (string * logical_type)) :=
  list_find (λ c, lower c.1 = lower name) schema.

Inductive bexpr : Type :=
  | BColumn (idx : nat)
  | BConst (z : Z)
  | BMul (a b : bexpr).

Inductive bcond : Type :=
  | BGe (a b : bexpr).

(** An integer literal takes the integer type of the other operand; the
    only integer type of the model is [BIGINT].  There is no [*] on
    [VARCHAR]; an operand of type [SQLNULL] is cast to the integer type. *)
Fixpoint bind_expr (schema : list (string * logical_type)) (e : expr)
    : result (bexpr * logical_type) :=
  match e with
  | ColRef name =>
      match find_column name schema with
      | Some (i, (_, ty)) => Ok (BColumn i, ty)
      | None => Raise BinderException
      end
  | IntLit z => Ok (BConst z, BIGINT)
  | Mul a b =>
      a' ← bind_expr schema a;
      b' ← bind_expr schema b;
      match a'.2, b'.2 with
      | VARCHAR, _ | _, VARCHAR => Raise BinderException
      | _, _ => Ok (BMul a'.1 b'.1, BIGINT)
      end
  end.

(** Two types can be compared when they are equal or one of them is
    [SQLNULL], which is cast to the other. *)
Definition comparable (a b : logical_type) : bool :=
  bool_decide (a = b) || bool_decide (a = SQLNULL) || bool_decide (b = SQLNULL).

Definition bind_cond (schema : list (string * logical_type)) (c : cond)
    : result bcond :=
  match c with
  | Ge a b =>
      a' ← bind_expr schema a;
      b' ← bind_expr schema b;
      if comparable a'.2 b'.2 then Ok (BGe a'.1 b'.1)
      else Raise BinderException
  end.

Fixpoint show_expr (e : expr) : string :=
  match e with
  | ColRef name => name
  | IntLit z => pretty z
  | Mul a b => "(" +:+ show_expr a +:+ " * " +:+ show_expr b +:+ ")"
  end.

(** The name of an output column: the alias; for a bare column reference
    the name as the table spells it; otherwise the expression's text. *)
Definition item_name (schema : list (string * logical_type))
    (it : expr * option string) : string :=
  match it with
  | (_, Some alias) => alias
  | (ColRef name, None) =>
      match find_column name schema with
      | Some (_, (stored, _)) => stored
      | None => name
      end
  | (e, None) => show_expr e
  end.

(** [SQLNULL] is a type of the binder only: an output column of that type
    gets the integer type. *)
Definition exchange_null (ty : logical_type) : logical_type :=
  match ty with
  | SQLNULL => BIGINT
  | _ => ty
  end.

Definition bind_item (schema : list (string * logical_type))
    (it : expr * option string) : result (bexpr * (string * logical_type)) :=
  e' ← bind_expr schema it.1;
  Ok (e'.1, (item_name schema it, exchange_null e'.2)).

(** *** Evaluation *)

(** Integer multiplication is checked: a product outside the 64-bit range
    is an error, never a wrapped value. *)
Definition checked_mul (a b : Z) : result Z :=
  if in_int64b (a * b) then Ok (a * b) else Raise OutOfRangeException.

Fixpoint eval (r : row) (e : bexpr) : result value :=
  match e with
  | BColumn i =>
      match r !! i with
      | Some v => Ok v
      | None => Raise InternalException
      end
  | BConst z => Ok (VBigInt z)
  | BMul a b =>
      x ← eval r a;
      y ← eval r b;
      match x, y with
      | VBigInt m, VBigInt n => VBigInt <$> checked_mul m n
      | _, _ => Raise InternalException
      end
  end.

(** The order of values of one type; strings compare bytewise.  Across
    types (which no bound statement compares) integers come first. *)
Definition value_leb (a b : value) : bool :=
  match a, b with
  | VBigInt m, VBigInt n => (m <=? n)%Z
  | VVarchar s, VVarchar t => String.leb s t
  | VBigInt _, VVarchar _ => true
  | VVarchar _, VBigInt _ => false
  end.

Definition eval_cond (r : row) (c : bcond) : result bool :=
  match c with
  | BGe a b =>
      x ← eval r a;
      y ← eval r b;
      Ok (value_leb y x)
  end.

Fixpoint filter_rows (c : bcond) (rows : list row) : result (list row) :=
  match rows with
  | [] => Ok []
  | r :: rows' =>
      keep ← eval_cond r c;
      rest ← filter_rows c rows';
      Ok (if keep : bool then r :: rest else rest)
  end.

Definition order_leb (d : direction) (a b : value) : bool :=
  match d with
  | ASC => value_leb a b
  | DESC => value_leb b a
  end.

(** *** The sort operator

    [ORDER BY] promises a result that is sorted by the key and holds the
    same rows; it promises nothing on the order of rows with equal keys.
    The engine's sort is therefore an interface: any implementation with
    these two laws. *)
Class SortOperator : Type := {
  sort_by : ∀ {A : Type}, (A → A → bool) → list A → list A;
  sort_by_Permutation : ∀ {A} (le : A → A → bool) (l : list A),
    sort_by le l ≡ₚ l;
  sort_by_Sorted : ∀ {A} (le : A → A → bool) (l : list A),
    (∀ x y, le x y = true ∨ le y x = true) →
    Sorted (λ x y, le x y = true) (sort_by le l)
}.

(** *** Running a [SELECT] *)

Section run.
Context `{SortOperator}.

Definition project (items : list bexpr) (key : option bexpr) (r : row)
    : result (option value * row) :=
  k ← match key with
      | Some e => Some <$> eval r e
      | None => Ok None
      end;
  out ← mapM (eval r) items;
  Ok (k, out).

Definition key_leb (d : direction) (x y : option value * row) : bool :=
  match x.1, y.1 with
  | Some a, Some b => order_leb d a b
  | _, _ => true
  end.

Definition run_select (q : select_stmt) (t : table) : result table :=
  let schema := tbl_schema t in
  items ← mapM (bind_item schema) (select_list q);
  c ← match where_clause q with
      | Some c => Some <$> bind_cond schema c
      | None => Ok None
      end;
  o ← match order_by q with
      | Some (e, d) => e' ← bind_expr schema e; Ok (Some (e'.1, d))
      | None => Ok None
      end;
  kept ← match c with
         | Some c => filter_rows c (tbl_rows t)
         | None => Ok (tbl_rows t)
         end;
  keyed ← mapM (project (items.*1) (fst <$> o)) kept;
  let sorted :=
    match o with
    | Some (_, d) => sort_by (key_leb d) keyed
    | None => keyed
    end in
  Ok {| tbl_schema := items.*2; tbl_rows := sorted.*2 |}.

(** *** Connections *)

(** A connection owns its catalog of registered frames (held by
    reference) and the result set of the last statement. *)
Record connection : Type := Connection {
  catalog : gmap string loc;
  pending : option table
}.

(** [duckdb.connect()]: a new in-memory database, with nothing in it. *)
Definition connect : connection :=
  {| catalog := ∅; pending := None |}.

(** [con.register(name, df)]: the frame is bound as a scan, which a frame
    without columns is refused for; the catalog keeps the reference. *)
Definition register (name : string) (df : loc) (con : connection)
    : call connection :=
  reading (λ h,
    match h !! df with
    | None => Raise InternalException
    | Some [] => Raise InvalidInputException
    | Some (_ :: _) =>
        Ok {| catalog := <[name := df]> (catalog con); pending := pending con |}
    end).

(** Running a parsed statement: the frame behind the table is read, not
    written. *)
Definition execute_stmt (q : select_stmt) (con : connection)
    : call connection :=
  reading (λ h,
    match catalog con !! from_table q with
    | None => Raise CatalogException
    | Some l =>
        match h !! l with
        | None => Raise InternalException
        | Some d =>
            r ← run_select q (pandas_scan d);
            Ok {| catalog := catalog con; pending := Some r |}
        end
    end).

(** [con.execute(sql)] *)
Definition execute (sql : string) (con : connection) : call connection :=
  q ← reading (λ _, parse sql);
  execute_stmt q con.

(** [con.df()]: the result set as a newly built frame. *)
Definition df (con : connection) : call loc :=
  match pending con with
  | None => reading (λ _, Raise InvalidInputException)
  | Some r => new_frame (fetch_df r)
  end.
End run.

End DuckDB.
Export DuckDB.

(** ** [src/main.py] *)

(** [def load_data(): df = pd.DataFrame({"id": [1,2,3,4], "value": [10,20,30,40]}); return df] *)
Definition load_data (h : heap) : loc * heap :=
  pd_DataFrame [("id", [1; 2; 3; 4]); ("value", [10; 20; 30; 40])] h.

(** The statement of [query_data], as the source writes it. *)
Definition SQL : string :=
  "SELECT id, value, value*2 AS value2 FROM t WHERE value >= 20 ORDER BY id DESC".

(** [def query_data(df): con = duckdb.connect(); con.register("t", df);
     result = con.execute(SQL).df(); return result] *)
Definition query_data `{SortOperator} (d : loc) : call loc :=
  let con := connect in
  con ← register "t" d con;
  con ← execute SQL con;
  df con.

(** The statement that [SQL] parses to. *)
Definition QUERY : select_stmt :=
  {| select_list := [ (ColRef "id", None);
                      (ColRef "value", None);
                      (Mul (ColRef "value") (IntLit 2), Some "value2") ];
     from_table := "t";
     where_clause := Some (Ge (ColRef "value") (IntLit 20));
     order_by := Some (ColRef "id", DESC) |}.

(** ** A sort operator: stdpp's merge sort *)

Section merge_sorter.
Context {A : Type} (le : A → A → bool).

Definition le_rel : relation A := λ x y, le x y = true.

#[local] Instance le_rel_dec x y : Decision (le_rel x y).
Proof. unfold le_rel. apply _. Defined.

Definition merge_sort_by (l : list A) : list A := merge_sort le_rel l.

Lemma merge_sort_by_Permutation l : merge_sort_by l ≡ₚ l.
Proof. apply merge_sort_Permutation. Qed.

Lemma merge_sort_by_Sorted l :
  (∀ x y, le x y = true ∨ le y x = true) →
  Sorted (λ x y, le x y = true) (merge_sort_by l).
Proof.
  intros Htot. assert (Total le_rel) by exact Htot.
  by apply Sorted_merge_sort.
Qed.
End merge_sorter.

Definition merge_sorter : SortOperator :=
  {| sort_by := @merge_sort_by;
     sort_by_Permutation := @merge_sort_by_Permutation;
     sort_by_Sorted := @merge_sort_by_Sorted |}.


(** ** Well-formed frames *)

(** What pandas guarantees of a frame: columns of one length, [int64] cells
    in range. *)
Definition pandas_frame (d : DataFrame) : Prop :=
  Forall (λ nc, col_len nc.2 = nrows d) d ∧ Forall (λ nc, col_ok nc.2) d.

(** The same, for a frame in which no two column names are equal up to
    case. *)
Definition valid_df (d : DataFrame) : Prop :=
  Forall (λ nc, col_len nc.2 = nrows d) d
  ∧ Forall (λ nc, col_ok nc.2) d
  ∧ NoDup (lower <$> columns d).

(** ** The fixed statement, bound *)

(** With [id] bound to column [i] and [value] to column [j]. *)
Definition ITEMS (i j : nat) : list bexpr :=
  [BColumn i; BColumn j; BMul (BColumn j) (BConst 2)].
Definition WHERE (j : nat) : bcond := BGe (BColumn j) (BConst 20).

(** ** The statement on the two columns it reads *)

(** An input row as the statement sees it: its [id] and its [value]. *)
Definition qualifies (p : Z * Z) : Prop := 20 ≤ p.2.

#[global] Instance qualifies_dec p : Decision (qualifies p).
Proof. unfold qualifies. apply _. Defined.

#[global] Instance in_int64_dec z : Decision (in_int64 z).
Proof. unfold in_int64. apply _. Defined.

Definition id_desc : relation (Z * Z) := λ p q, q.1 ≤ p.1.

(** The frame of the output rows of [rs]. *)
Definition out_frame (rs : list (Z * Z)) : DataFrame :=
  [("id", Int64Col rs.*1);
   ("value", Int64Col rs.*2);
   ("value2", Int64Col ((λ p, p.2 * 2) <$> rs))].

(** ** Inputs of the query *)

(** The argument of [query_data] is a well-formed frame with [int64]
    columns [id] and [value] (and whatever other columns). *)
Definition input_frame (h : heap) (l : loc) (d : DataFrame) (ids vals : list Z)
    : Prop :=
  h !! l = Some d ∧ valid_df d
  ∧ get "id" d = Some (Int64Col ids) ∧ get "value" d = Some (Int64Col vals).

(** The double of every value that passes the filter is a 64-bit integer. *)
Definition fits (ps : list (Z * Z)) : Prop :=
  Forall (λ p, qualifies p → in_int64 (p.2 * 2)) ps.

(** Some value that passes the filter has a double outside 64 bits. *)
Definition overflows (ps : list (Z * Z)) : Prop :=
  Exists (λ p, qualifies p ∧ ¬ in_int64 (p.2 * 2)) ps.

(** ** The columns the binder resolves *)

(** The column that the binder resolves [name] to: the first one of that
    name, up to case. *)
Definition resolve (name : string) (d : DataFrame)
    : option (nat * (string * column)) :=
  list_find (λ nc, lower nc.1 = lower name) d.

(** The column that [name] resolves to is spelled [name]: no column before
    the one that pandas finds under [name] has that name up to case. *)
Definition unshadowed (name : string) (d : DataFrame) : Prop :=
  match resolve name d with
  | Some (_, (nm, _)) => nm = name
  | None => True
  end.

(** The cells of a column that the binder takes for a column of integers:
    an [int64] column, or a column without cells. *)
Definition int_cells (c : column) : option (list Z) :=
  match c with
  | Int64Col zs => Some zs
  | ObjectCol [] => Some []
  | ObjectCol (_ :: _) => None
  end.

(** The frames the statement is written for: a pandas frame with a column
    [id] and an [int64] column [value], each the first column of its name
    when case is ignored, so that these are the two the statement reads. *)
Definition query_input (h : heap) (l : loc) (d : DataFrame)
    (cid : column) (vals : list Z) : Prop :=
  h !! l = Some d ∧ pandas_frame d
  ∧ get "id" d = Some cid ∧ unshadowed "id" d
  ∧ get "value" d = Some (Int64Col vals) ∧ unshadowed "value" d.


(** ** The statement on any [id] column *)

(** An input row with its [id] cell of whatever type. *)
Definition qualifies_v (p : value * Z) : Prop := 20 ≤ p.2.

#[global] Instance qualifies_v_dec p : Decision (qualifies_v p).
Proof. unfold qualifies_v. apply _. Defined.

(** The output row of an input row, with its sort key. *)
Definition out_row_v (p : value * Z) : option value * row :=
  (Some p.1, [p.1; VBigInt p.2; VBigInt (p.2 * 2)]).

Definition core_project_v (p : value * Z) : result (option value * row) :=
  if in_int64b (p.2 * 2) then Ok (out_row_v p) else Raise OutOfRangeException.

(** Row [r] of the scan carries the pair [p] in columns [i] and [j]. *)
Definition rep_v (i j : nat) (r : row) (p : value * Z) : Prop :=
  r !! i = Some p.1 ∧ r !! j = Some (VBigInt p.2).

Definition key_desc : relation (value * Z) :=
  λ p q, value_leb q.1 p.1 = true.

(** The output frame: the [id] column keeps the name it has in the input
    and has the type [ty], the [value] column keeps its name. *)
Definition out_frame_v (ni nj : string) (ty : logical_type)
    (rs : list (value * Z)) : DataFrame :=
  [(ni, column_of ty rs.*1);
   (nj, Int64Col rs.*2);
   ("value2", Int64Col ((λ p, p.2 * 2) <$> rs))].

(** Every value that passes the filter is below 2^62. *)
Definition doubles_fit (vals : list Z) : Prop :=
  Forall (λ v, 20 ≤ v → v < 2 ^ 62) vals.


(** An input row with an [id] cell of type [A]. *)
Definition passes {A} (p : A * Z) : Prop := 20 ≤ p.2.

#[global] Instance passes_dec {A} (p : A * Z) : Decision (passes p) | 100.
Proof. unfold passes. apply _. Defined.

Definition lift {A} (f : A → value) (p : A * Z) : value * Z := (f p.1, p.2).

(** ** Deciding the hypotheses on concrete frames *)

#[global] Instance col_ok_dec c : Decision (col_ok c).
Proof. destruct c; simpl; apply _. Defined.

#[global] Instance pandas_frame_dec d : Decision (pandas_frame d).
Proof. unfold pandas_frame. apply _. Defined.

#[global] Instance valid_df_dec d : Decision (valid_df d).
Proof. unfold valid_df. apply _. Defined.

#[global] Instance input_frame_dec h l d ids vals :
  Decision (input_frame h l d ids vals).
Proof. unfold input_frame. apply _. Defined.

#[global] Instance fits_dec ps : Decision (fits ps).
Proof. unfold fits. apply _. Defined.

#[global] Instance unshadowed_dec name d : Decision (unshadowed name d).
Proof.
  unfold unshadowed. destruct (resolve name d) as [[? [? ?]]|]; apply _.
Defined.

#[global] Instance query_input_dec h l d cid vals :
  Decision (query_input h l d cid vals).
Proof. unfold query_input. apply _. Defined.

#[global] Instance doubles_fit_dec vals : Decision (doubles_fit vals).
Proof. unfold doubles_fit. apply _. Defined.

Ltac by_evaluation := apply (bool_decide_unpack _); vm_compute; exact I.

(** ** Sample data for the closed instances *)

Definition sample_heap : heap := (load_data ∅).2.
Definition sample_loc : loc := (load_data ∅).1.



Definition sample_df : DataFrame :=
  [("id", Int64Col [1; 2; 3; 4]); ("value", Int64Col [10; 20; 30; 40])].


(** A value >= 20 whose double is 2^63. *)
Definition big_df : DataFrame :=
  [("id", Int64Col [1]); ("value", Int64Col [2 ^ 62])].




(** A column [ID] before the column [id]. *)
Definition shadow_df : DataFrame :=
  [("ID", Int64Col [7; 8]); ("id", Int64Col [1; 2]); ("value", Int64Col [20; 30])].

(** A column [VALUE] before the column [value]. *)
Definition clash_df : DataFrame :=
  [("VALUE", Int64Col [50]); ("id", Int64Col [1]); ("value", Int64Col [10])].


(** No rows pass the filter (Scenario B). *)
Definition low_df : DataFrame :=
  [("id", Int64Col [1; 2]); ("value", Int64Col [10; 15])].

(** No rows at all: what pandas builds from two empty lists. *)
Definition empty_df : DataFrame :=
  [("id", ObjectCol []); ("value", ObjectCol [])].

(** No columns at all. *)
Definition blank_df : DataFrame := [].


(** A [value] column of strings. *)
Definition text_df : DataFrame :=
  [("id", Int64Col [1; 2]); ("value", ObjectCol ["20"; "thirty"])].



Definition heap_of (d : DataFrame) : heap := (alloc d ∅).2.
Definition loc_of (d : DataFrame) : loc := (alloc d ∅).1.




(** ** The script of [src/main.py] *)

(** What [print(label, df)] writes, as the label and the contents of the
    frame at that moment (the text pandas renders is a function of them). *)
Definition print (label : string) (l : loc) (h : heap)
    : list (string * DataFrame) :=
  match h !! l with
  | Some d => [(label, d)]
  | None => []
  end.

Definition newline : string := String (ascii_of_nat 10) EmptyString.

(** [if __name__ == "__main__": df = load_data(); print("Input:\n", df);
     out = query_data(df); print("Result:\n", out)].
    The output written so far stays written when [query_data] raises. *)
Definition main `{SortOperator} (h : heap)
    : list (string * DataFrame) * result heap :=
  let (df, h) := load_data h in
  let stdout := print ("Input:" +:+ newline) df h in
  match query_data df h with
  | (Raise e, _) => (stdout, Raise e)
  | (Ok out, h) =>
      ((stdout ++ print ("Result:" +:+ newline) out h)%list, Ok h)
  end.

(** ** The assertions of [tests/test_main.py] *)

(** Arithmetic on an [int64] Series wraps around. *)
Definition wrap64 (z : Z) : Z := (z + 2 ^ 63) `mod` 2 ^ 64 - 2 ^ 63.

(** [s * k] *)
Definition series_mul (zs : list Z) (k : Z) : list Z :=
  (λ z, wrap64 (z * k)) <$> zs.

(** [sorted(l, reverse=True)] on a list of ints. *)
Definition sorted_reverse (l : list Z) : list Z :=
  merge_sort (λ a b : Z, b ≤ a) (H:=λ a b, decide (b ≤ a)) l.

(** Lines 34-45 of [test_query_data], which do not name the test's data:
    the three columns are there, [all(result["value"] >= 20)],
    [all(result["value2"] == result["value"] * 2)] and
    [result["id"].tolist() == sorted(result["id"].tolist(), reverse=True)]. *)
Definition result_assertions (r : DataFrame) : bool :=
  bool_decide ("id" ∈ columns r)
  && bool_decide ("value" ∈ columns r)
  && bool_decide ("value2" ∈ columns r)
  && match get "value" r, get "value2" r, get "id" r with
     | Some (Int64Col vs), Some (Int64Col ws), Some (Int64Col ks) =>
         forallb (λ v, 20 <=? v) vs
         && forallb (λ wv, wv.1 =? wv.2) (zip ws (series_mul vs 2))
         && bool_decide (ks = sorted_reverse ks)
     | _, _, _ => false
     end.

Inductive outcome : Set :=
  | Passed
  | Failed
  | Errored (e : exn).

(** [test_load_data]: the columns are [id], [value] and the frame equals the
    one built from the expected data. *)
Definition test_load_data (h : heap) : outcome :=
  let (df, h) := load_data h in
  let (expected_df, h) :=
    pd_DataFrame [("id", [1; 2; 3; 4]); ("value", [10; 20; 30; 40])] h in
  match h !! df, h !! expected_df with
  | Some d, Some e =>
      if bool_decide (columns d = ["id"; "value"]) && bool_decide (d = e)
      then Passed else Failed
  | _, _ => Failed
  end.

(** [test_query_data]: the assertions above, three rows, ids {2, 3, 4}. *)
Definition test_query_data `{SortOperator} (h : heap) : outcome :=
  let (df, h) :=
    pd_DataFrame [("id", [1; 2; 3; 4]); ("value", [10; 20; 30; 40])] h in
  match query_data df h with
  | (Raise e, _) => Errored e
  | (Ok result, h) =>
      match h !! result with
      | Some r =>
          if result_assertions r
             && bool_decide (nrows r = 3%nat)
             && match get "id" r with
                | Some (Int64Col ks) =>
                    bool_decide (list_to_set ks =@{gset Z} {[2; 3; 4]})
                | _ => false
                end
          then Passed else Failed
      | None => Failed
      end
  end.

(** [test_query_data_empty_result]: no rows, the three columns. *)
Definition test_query_data_empty_result `{SortOperator} (h : heap) : outcome :=
  let (df, h) := pd_DataFrame [("id", [1; 2]); ("value", [10; 15])] h in
  match query_data df h with
  | (Raise e, _) => Errored e
  | (Ok result, h) =>
      match h !! result with
      | Some r =>
          if bool_decide (nrows r = 0%nat)
             && bool_decide ("id" ∈ columns r)
             && bool_decide ("value" ∈ columns r)
             && bool_decide ("value2" ∈ columns r)
          then Passed else Failed
      | None => Failed
      end
  end.

(** ** The scan yields the cells of the frame *)

Section scan.
Implicit Types (c : list value) (rows : list row).

Lemma head_zip_cons c rows :
  length c = length rows →
  (λ r : row, r !! 0%nat) <$> zip_with cons c rows = Some <$> c.
Proof.
  revert rows. induction c as [|v c IH]; intros [|r rows] Hlen;
    simplify_eq/=; [done|]. f_equal. by apply IH.
Qed.

Lemma tail_zip_cons k c rows :
  length c = length rows →
  (λ r : row, r !! S k) <$> zip_with cons c rows = (λ r : row, r !! k) <$> rows.
Proof.
  revert rows. induction c as [|v c IH]; intros [|r rows] Hlen;
    simplify_eq/=; [done|]. f_equal. by apply IH.
Qed.

Lemma transpose_length n (cols : list (list value)) :
  Forall (λ c, length c = n) cols → length (transpose n cols) = n.
Proof.
  induction 1 as [|c cols Hc _ IH]; simpl.
  - by rewrite length_replicate.
  - rewrite length_zip_with, IH, Hc. lia.
Qed.

Lemma transpose_cell n (cols : list (list value)) k c :
  Forall (λ c, length c = n) cols →
  cols !! k = Some c →
  (λ r : row, r !! k) <$> transpose n cols = Some <$> c.
Proof.
  intros Hall. revert k. induction Hall as [|c0 cols Hc Hall IH];
    intros [|k] Hk; simplify_eq/=.
  - apply head_zip_cons. by rewrite transpose_length.
  - rewrite tail_zip_cons; [by apply IH|]. by rewrite transpose_length.
Qed.
End scan.

Lemma col_values_length c : length (col_values c) = col_len c.
Proof. destruct c; simpl; by rewrite length_fmap. Qed.

Lemma valid_df_frame d : valid_df d → pandas_frame d.
Proof. by intros (? & ? & _). Qed.

Lemma scan_length d :
  pandas_frame d → length (tbl_rows (pandas_scan d)) = nrows d.
Proof.
  intros (Hlen & _). simpl. apply transpose_length.
  rewrite Forall_fmap. eapply Forall_impl; [exact Hlen|].
  intros [nm c] Hc; simpl in *. by rewrite col_values_length.
Qed.

Lemma scan_cell d k nm c :
  pandas_frame d → d !! k = Some (nm, c) →
  (λ r : row, r !! k) <$> tbl_rows (pandas_scan d) = Some <$> col_values c.
Proof.
  intros (Hlen & _) Hk. simpl. apply transpose_cell.
  - rewrite Forall_fmap. eapply Forall_impl; [exact Hlen|].
    intros [nm' c'] Hc; simpl in *. by rewrite col_values_length.
  - by rewrite list_lookup_fmap, Hk.
Qed.

Lemma frame_col_len d k nm c :
  pandas_frame d → d !! k = Some (nm, c) → col_len c = nrows d.
Proof.
  intros (Hlen & _) Hk. rewrite Forall_lookup in Hlen. apply (Hlen _ _ Hk).
Qed.

(** ** The columns the binder resolves *)

Lemma get_Some name d c :
  get name d = Some c →
  ∃ k, list_find (λ nc : string * column, nc.1 = name) d = Some (k, (name, c)).
Proof.
  unfold get. intros Hget.
  destruct (list_find _ d) as [[k [nm c']]|] eqn:Hfind; simplify_eq/=.
  exists k. apply list_find_Some in Hfind as (? & ? & ?); by simplify_eq/=.
Qed.

Lemma get_lookup name d c :
  get name d = Some c → ∃ k, d !! k = Some (name, c).
Proof.
  intros (k & Hfind)%get_Some. exists k.
  by apply list_find_Some in Hfind as (? & _).
Qed.

Lemma find_column_resolve name d :
  find_column name (tbl_schema (pandas_scan d))
  = (λ kc, (kc.1, (kc.2.1, col_type kc.2.2))) <$> resolve name d.
Proof.
  unfold find_column, resolve. simpl. rewrite list_find_fmap.
  by destruct (list_find _ d) as [[k [nm c]]|].
Qed.

Lemma resolve_Some name d k nm c :
  resolve name d = Some (k, (nm, c)) →
  d !! k = Some (nm, c) ∧ lower nm = lower name.
Proof. intros (? & ? & _)%list_find_Some. by split. Qed.


Lemma resolve_nonempty name d x : resolve name d = Some x → d ≠ [].
Proof. by intros Hres ->. Qed.

(** With names distinct up to case, a column is the one its name resolves
    to, however the name is spelled. *)
Lemma resolve_spelled name d nm c :
  valid_df d → (nm, c) ∈ d → lower nm = lower name →
  ∃ k, resolve name d = Some (k, (nm, c)).
Proof.
  intros (_ & _ & Hnd) Hin Hnm.
  apply list_elem_of_lookup in Hin as [k Hk].
  exists k. apply list_find_Some. split_and!; [done..|].
  intros j [nm' c'] Hj Hlt Heq. simpl in Heq.
  assert (j = k) as ->; [|lia].
  eapply NoDup_lookup; [exact Hnd| |].
  - unfold columns. by rewrite !list_lookup_fmap, Hj.
  - unfold columns. rewrite !list_lookup_fmap, Hk. simpl. congruence.
Qed.

Lemma get_resolve name d c :
  valid_df d → get name d = Some c →
  ∃ k, resolve name d = Some (k, (name, c)).
Proof.
  intros Hv (k & Hk)%get_lookup.
  apply (resolve_spelled name d name c Hv); [|done].
  by eapply list_elem_of_lookup_2.
Qed.

(** A column that no earlier column shadows is the one its name resolves
    to. *)
Lemma get_unshadowed name d c :
  get name d = Some c → unshadowed name d →
  ∃ k, resolve name d = Some (k, (name, c)).
Proof.
  intros (k & Hfind)%get_Some Hun.
  apply list_find_Some in Hfind as (Hk & _ & Hmin).
  unfold unshadowed in Hun.
  destruct (resolve name d) as [[k' [nm c']]|] eqn:Hres.
  - subst nm. apply list_find_Some in Hres as (Hk' & _ & Hmin').
    assert (k' = k) as ->.
    { destruct (decide (k' < k)%nat) as [Hlt|Hge].
      - by destruct (Hmin _ _ Hk' Hlt).
      - destruct (decide (k < k')%nat) as [Hlt|?]; [|lia].
        by destruct (Hmin' _ _ Hk Hlt). }
    exists k. by simplify_eq.
  - exfalso. apply list_find_None in Hres. rewrite Forall_forall in Hres.
    eapply (Hres (name, c)); [by eapply list_elem_of_lookup_2|done].
Qed.

(** ** The fixed statement, parsed and bound *)

Lemma parse_SQL : parse SQL = Ok QUERY.
Proof. by vm_compute. Qed.

Example parse_any_case :
  parse "select ID, Value, VALUE * 2 as value2 from t where value>=20 order by id desc"
  = Ok {| select_list := [ (ColRef "ID", None);
                           (ColRef "Value", None);
                           (Mul (ColRef "VALUE") (IntLit 2), Some "value2") ];
          from_table := "t";
          where_clause := Some (Ge (ColRef "value") (IntLit 20));
          order_by := Some (ColRef "id", DESC) |}.
Proof. by vm_compute. Qed.

Example parse_trailing_comma :
  parse "SELECT id, FROM t"
  = Ok {| select_list := [ (ColRef "id", None) ]; from_table := "t";
          where_clause := None; order_by := None |}.
Proof. by vm_compute. Qed.

Example parse_incomplete :
  parse "SELECT id FROM t WHERE" = Raise ParserException.
Proof. by vm_compute. Qed.

Section bound.
Context `{SortOperator}.

Lemma run_select_QUERY t i j ni nj ti tj :
  find_column "id" (tbl_schema t) = Some (i, (ni, ti)) →
  find_column "value" (tbl_schema t) = Some (j, (nj, tj)) →
  tj ≠ VARCHAR →
  run_select QUERY t =
    kept ← filter_rows (WHERE j) (tbl_rows t);
    keyed ← mapM (project (ITEMS i j) (Some (BColumn i))) kept;
    Ok {| tbl_schema := [(ni, exchange_null ti); (nj, BIGINT); ("value2", BIGINT)];
          tbl_rows := (sort_by (key_leb DESC) keyed).*2 |}.
Proof.
  intros Hi Hj Htj. unfold run_select, QUERY, bind_item, item_name. simpl.
  rewrite Hi, Hj. by destruct tj.
Qed.



End bound.

(** ** The statement on the two columns it reads *)

Lemma in_int64b_true z : in_int64b z = true ↔ in_int64 z.
Proof. unfold in_int64b, in_int64. rewrite andb_true_iff. lia. Qed.

Lemma in_int64b_false z : in_int64b z = false ↔ ¬ in_int64 z.
Proof.
  rewrite <-in_int64b_true. destruct (in_int64b z); naive_solver.
Qed.

Lemma int_cells_len c vals : int_cells c = Some vals → length vals = col_len c.
Proof. destruct c as [zs|[|s ss]]; intros; by simplify_eq/=. Qed.

Lemma int_cells_type c vals : int_cells c = Some vals → col_type c ≠ VARCHAR.
Proof. destruct c as [zs|[|s ss]]; intros; by simplify_eq/=. Qed.

Lemma int_cells_values c vals :
  int_cells c = Some vals → col_values c = VBigInt <$> vals.
Proof. destruct c as [zs|[|s ss]]; intros; by simplify_eq/=. Qed.

Section rows_v.
Context `{SortOperator} (i j : nat).

Lemma eval_cond_rep_v r p :
  rep_v i j r p → eval_cond r (WHERE j) = Ok (bool_decide (qualifies_v p)).
Proof.
  intros [_ Hj]. unfold eval_cond, WHERE. simpl. rewrite Hj. simpl.
  f_equal. unfold qualifies_v.
  symmetry. destruct (Z.leb_spec 20 p.2).
  - by apply bool_decide_eq_true_2.
  - apply bool_decide_eq_false_2. lia.
Qed.

Lemma filter_rows_rep_v rows ps :
  Forall2 (rep_v i j) rows ps →
  ∃ rows', filter_rows (WHERE j) rows = Ok rows'
           ∧ Forall2 (rep_v i j) rows' (filter qualifies_v ps).
Proof.
  induction 1 as [|r p rows ps Hrp _ (rows' & Heq & IH)].
  - by exists [].
  - cbn [filter_rows]. rewrite (eval_cond_rep_v r p Hrp), Heq. simpl.
    rewrite filter_cons. case_bool_decide; case_decide; try done.
    + exists (r :: rows'). by split; [|constructor].
    + by exists rows'.
Qed.

Lemma project_rep_v r p :
  rep_v i j r p → project (ITEMS i j) (Some (BColumn i)) r = core_project_v p.
Proof.
  intros [Hi Hj]. unfold project, ITEMS, core_project_v. simpl.
  rewrite Hi, Hj. simpl. unfold checked_mul.
  by destruct (in_int64b (p.2 * 2)).
Qed.

Lemma mapM_project_rep_v rows ps :
  Forall2 (rep_v i j) rows ps →
  mapM (project (ITEMS i j) (Some (BColumn i))) rows = mapM core_project_v ps.
Proof.
  induction 1 as [|r p rows ps Hrp _ IH]; [done|].
  simpl. by rewrite (project_rep_v r p Hrp), IH.
Qed.

Lemma scan_rep_v d ni nj cid cval vals :
  pandas_frame d →
  d !! i = Some (ni, cid) →
  d !! j = Some (nj, cval) →
  int_cells cval = Some vals →
  Forall2 (rep_v i j) (tbl_rows (pandas_scan d)) (zip (col_values cid) vals).
Proof.
  intros Hv Hi Hj Hcells.
  pose proof (scan_cell d i ni _ Hv Hi) as Hci.
  pose proof (scan_cell d j nj _ Hv Hj) as Hcj.
  pose proof (scan_length d Hv) as Hlen.
  pose proof (frame_col_len _ _ _ _ Hv Hi) as Hli.
  pose proof (frame_col_len _ _ _ _ Hv Hj) as Hlj.
  rewrite <-col_values_length in Hli.
  rewrite <-(int_cells_len _ _ Hcells) in Hlj.
  rewrite (int_cells_values _ _ Hcells) in Hcj.
  apply Forall2_same_length_lookup_2.
  - rewrite length_zip, Hlen; lia.
  - intros k r [a v] Hr [Ha Hb]%lookup_zip_Some. split; simpl in *.
    + apply (f_equal (λ l, l !! k)) in Hci.
      rewrite !list_lookup_fmap, Hr, Ha in Hci. by simplify_eq/=.
    + apply (f_equal (λ l, l !! k)) in Hcj.
      rewrite !list_lookup_fmap, Hr, Hb in Hcj. by simplify_eq/=.
Qed.
End rows_v.

Lemma mapM_result_cons {A B} (f : A → result B) x l :
  mapM f (x :: l) = y ← f x; k ← mapM f l; Ok (y :: k).
Proof. reflexivity. Qed.

Lemma mapM_core_v_ok ps :
  Forall (λ p, in_int64 (p.2 * 2)) ps →
  mapM core_project_v ps = Ok (out_row_v <$> ps).
Proof.
  induction 1 as [|p ps Hp _ IH]; [done|].
  rewrite mapM_result_cons, IH. unfold core_project_v.
  apply in_int64b_true in Hp. by rewrite Hp.
Qed.

Lemma mapM_core_v_overflow ps :
  Exists (λ p, ¬ in_int64 (p.2 * 2)) ps →
  mapM core_project_v ps = Raise OutOfRangeException.
Proof.
  induction 1 as [p ps Hp|p ps _ IH]; rewrite mapM_result_cons.
  - unfold core_project_v. apply in_int64b_false in Hp. by rewrite Hp.
  - rewrite IH. unfold core_project_v. by destruct (in_int64b _).
Qed.

(** ** Sorting the output rows *)



Lemma value_leb_total a b : value_leb a b = true ∨ value_leb b a = true.
Proof.
  destruct a as [m|s], b as [n|t]; simpl; auto.
  - rewrite !Z.leb_le. lia.
  - apply String.leb_total.
Qed.



Lemma key_leb_total d x y : key_leb d x y = true ∨ key_leb d y x = true.
Proof.
  unfold key_leb. destruct x as [[a|] ?], y as [[b|] ?]; simpl; auto.
  destruct d; simpl; apply value_leb_total.
Qed.

Lemma Sorted_fmap_inv {A B} (f : A → B) (R1 : relation A) (R2 : relation B) l :
  (∀ x y, R2 (f x) (f y) → R1 x y) → Sorted R2 (f <$> l) → Sorted R1 l.
Proof.
  intros HR. induction l as [|x l IH]; [constructor|].
  rewrite fmap_cons. inversion 1 as [|? ? Hs Hhd]; subst.
  constructor; [by apply IH|].
  destruct l; [constructor|]. inversion Hhd; subst. constructor. by apply HR.
Qed.

Lemma Sorted_impl {A} (R1 R2 : relation A) l :
  (∀ x y, R1 x y → R2 x y) → Sorted R1 l → Sorted R2 l.
Proof.
  intros HR. induction 1 as [|x l _ IH Hhd]; constructor; [done|].
  destruct Hhd; constructor. by apply HR.
Qed.

Lemma fmap_Permutation_inv {A B} (f : A → B) (k : list B) (l : list A) :
  k ≡ₚ f <$> l → ∃ l', k = f <$> l' ∧ l' ≡ₚ l.
Proof.
  intros Hp. destruct (Permutation_map_inv f l Hp) as (l' & -> & Hl').
  exists l'. split; [done|]. by symmetry.
Qed.


Section sorted_rows_v.
Context `{SortOperator}.

(** The sorted output rows are the output rows of a rearrangement of the
    input rows that is descending in [id]. *)
Lemma sort_out_rows_v ps :
  ∃ rs, rs ≡ₚ ps
        ∧ sort_by (key_leb DESC) (out_row_v <$> ps) = out_row_v <$> rs
        ∧ Sorted key_desc rs.
Proof.
  destruct (fmap_Permutation_inv out_row_v _ ps
              (sort_by_Permutation (key_leb DESC) (out_row_v <$> ps)))
    as (rs & Heq & Hperm).
  exists rs. split_and!; [done..|].
  pose proof (sort_by_Sorted (key_leb DESC) (out_row_v <$> ps)
                (key_leb_total DESC)) as Hs.
  rewrite Heq in Hs. eapply Sorted_fmap_inv; [|exact Hs].
  by intros [a v] [b w].
Qed.
End sorted_rows_v.

(** ** The result set as a frame *)

Lemma fetch_df_out_v ni nj ty rs :
  fetch_df {| tbl_schema := [(ni, ty); (nj, BIGINT); ("value2", BIGINT)];
              tbl_rows := (out_row_v <$> rs).*2 |}
  = out_frame_v ni nj ty rs.
Proof.
  unfold fetch_df, out_frame_v, nth_col. simpl.
  repeat f_equal; induction rs as [|[a v] rs IH]; simpl; by f_equal.
Qed.

Lemma double_fits v : 20 ≤ v → (in_int64 (v * 2) ↔ v < 2 ^ 62).
Proof. unfold in_int64, int64_min, int64_max. lia. Qed.

Lemma not_doubles_fit vals :
  ¬ doubles_fit vals ↔ Exists (λ v, 2 ^ 62 ≤ v) vals.
Proof.
  unfold doubles_fit. split.
  - intros Hnot. apply not_Forall_Exists in Hnot; [|intros ?; apply _].
    eapply Exists_impl; [exact Hnot|]. intros v Hv. simpl in Hv.
    destruct (decide (2 ^ 62 ≤ v)); [done|]. exfalso. apply Hv. lia.
  - intros Hex Hall. apply Exists_exists in Hex as (v & Hin & Hv).
    rewrite Forall_forall in Hall. specialize (Hall v Hin). lia.
Qed.

(** ** Allocation *)

Lemma alloc_fresh d (h : heap) : h !! (alloc d h).1 = None.
Proof. apply not_elem_of_dom, is_fresh. Qed.

Lemma alloc_lookup d (h : heap) : (alloc d h).2 !! (alloc d h).1 = Some d.
Proof. apply lookup_insert_eq. Qed.

Lemma alloc_frame d (h : heap) k :
  k ≠ (alloc d h).1 → (alloc d h).2 !! k = h !! k.
Proof. intros Hne. by apply lookup_insert_ne. Qed.

Lemma alloc_old d (h : heap) k x :
  h !! k = Some x → k ≠ (alloc d h).1 ∧ (alloc d h).2 !! k = Some x.
Proof.
  intros Hk.
  assert (k ≠ (alloc d h).1) as Hne.
  { intros ->. by rewrite alloc_fresh in Hk. }
  split; [done|]. by rewrite alloc_frame.
Qed.



(** ** [query_data] as a function of the frame behind its argument *)

Section structure.
Context `{SortOperator}.

Lemma query_data_run l h d :
  h !! l = Some d → d ≠ [] →
  query_data l h
  = match run_select QUERY (pandas_scan d) with
    | Ok r => new_frame (fetch_df r) h
    | Raise e => (Raise e, h)
    end.
Proof.
  intros Hl Hd. destruct d as [|nc d]; [done|].
  unfold query_data, execute, execute_stmt, register, connect, reading.
  unfold mbind, call_bind. rewrite Hl, parse_SQL. simpl.
  rewrite lookup_insert_eq, Hl.
  by destruct (run_select _ _).
Qed.







(** On a frame in which the binder resolves [id] to a column of any type
    and [value] to a column of integers, [query_data] is a function of the
    cells of these two columns and of their names. *)
Lemma query_data_core l h d i j ni nj cid cval vals :
  h !! l = Some d → pandas_frame d →
  resolve "id" d = Some (i, (ni, cid)) →
  resolve "value" d = Some (j, (nj, cval)) →
  int_cells cval = Some vals →
  query_data l h
  = match mapM core_project_v (filter qualifies_v (zip (col_values cid) vals)) with
    | Ok keyed =>
        new_frame
          (fetch_df {| tbl_schema := [(ni, exchange_null (col_type cid));
                                      (nj, BIGINT); ("value2", BIGINT)];
                       tbl_rows := (sort_by (key_leb DESC) keyed).*2 |}) h
    | Raise e => (Raise e, h)
    end.
Proof.
  intros Hl Hv Hid Hval Hcells.
  destruct (resolve_Some _ _ _ _ _ Hid) as [Hi _].
  destruct (resolve_Some _ _ _ _ _ Hval) as [Hj _].
  pose proof (find_column_resolve "id" d) as Hfi.
  pose proof (find_column_resolve "value" d) as Hfj.
  rewrite Hid in Hfi. rewrite Hval in Hfj.
  destruct (filter_rows_rep_v i j _ _
              (scan_rep_v i j d ni nj cid cval vals Hv Hi Hj Hcells))
    as (kept & Hkept & Hrep).
  rewrite (query_data_run l h d Hl (resolve_nonempty _ _ _ Hid)).
  rewrite (run_select_QUERY _ i j _ _ _ _ Hfi Hfj (int_cells_type _ _ Hcells)),
    Hkept.
  simpl. rewrite (mapM_project_rep_v i j _ _ Hrep).
  by destruct (mapM core_project_v _).
Qed.

(** The two outcomes of [query_data] on such a frame. *)
Lemma query_data_resolved l h d i j ni nj cid cval vals :
  h !! l = Some d → pandas_frame d →
  resolve "id" d = Some (i, (ni, cid)) →
  resolve "value" d = Some (j, (nj, cval)) →
  int_cells cval = Some vals →
  (doubles_fit vals
   ∧ ∃ rs, rs ≡ₚ filter qualifies_v (zip (col_values cid) vals)
           ∧ Sorted key_desc rs
           ∧ query_data l h
             = new_frame (out_frame_v ni nj (exchange_null (col_type cid)) rs) h)
  ∨ (¬ doubles_fit vals ∧ query_data l h = (Raise OutOfRangeException, h)).
Proof.
  intros Hl Hv Hid Hval Hcells.
  rewrite (query_data_core l h d i j ni nj cid cval vals Hl Hv Hid Hval Hcells).
  assert (length (col_values cid) = length vals) as Hlen.
  { destruct (resolve_Some _ _ _ _ _ Hid) as [Hi _].
    destruct (resolve_Some _ _ _ _ _ Hval) as [Hj _].
    rewrite col_values_length, (int_cells_len _ _ Hcells).
    rewrite (frame_col_len _ _ _ _ Hv Hi), (frame_col_len _ _ _ _ Hv Hj).
    done. }
  destruct (decide (doubles_fit vals)) as [Hfit|Hnot]; [left|right];
    (split; [done|]).
  - destruct (sort_out_rows_v (filter qualifies_v (zip (col_values cid) vals)))
      as (rs & Hperm & Heq & Hs).
    exists rs. split_and!; [done..|].
    rewrite mapM_core_v_ok.
    + by rewrite Heq, fetch_df_out_v.
    + apply Forall_forall. intros [a v] [Hq Hin]%list_elem_of_filter.
      apply elem_of_zip_r in Hin. unfold doubles_fit in Hfit.
      rewrite Forall_forall in Hfit. unfold qualifies_v in Hq. simpl in *.
      apply double_fits; [done|]. by apply Hfit.
  - rewrite mapM_core_v_overflow; [done|].
    unfold doubles_fit in Hnot.
    apply not_Forall_Exists in Hnot; [|intros ?; apply _].
    apply Exists_exists in Hnot as (v & Hin & Hv').
    apply list_elem_of_lookup in Hin as [k Hk].
    destruct (lookup_lt_is_Some_2 (col_values cid) k) as [a Ha].
    { rewrite Hlen. by eapply lookup_lt_Some. }
    assert (20 ≤ v ∧ ¬ v < 2 ^ 62) as [Hq Hbig].
    { destruct (decide (20 ≤ v)); [|naive_solver].
      split; [done|]. naive_solver. }
    apply Exists_exists. exists (a, v). split.
    + apply list_elem_of_filter. split; [done|].
      apply list_elem_of_lookup. exists k. by apply lookup_zip_Some.
    + simpl. by rewrite double_fits.
Qed.



End structure.

(** ** What a call does to the heap *)

Section effect.
Context `{SortOperator}.



End effect.


(** ** The outcome, up to the order of rows of equal [id] *)



(** ** [query_data] with the [id] column at its own type *)

Lemma filter_zip_lift {A} (f : A → value) xs vals :
  filter qualifies_v (zip (f <$> xs) vals)
  = lift f <$> filter passes (zip xs vals).
Proof.
  revert vals. induction xs as [|x xs IH]; intros [|v vals]; [done..|].
  cbn [fmap list_fmap zip zip_with]. rewrite !filter_cons, IH.
  unfold qualifies_v, passes, lift. simpl.
  by destruct (decide (20 ≤ v)).
Qed.

Lemma filter_passes_qualifies (ps : list (Z * Z)) :
  filter passes ps = filter qualifies ps.
Proof. by apply list_filter_iff. Qed.


Section typed.
Context `{SortOperator} {A : Type} (f : A → value) (mk : list A → column)
  (ty : logical_type).
Hypothesis mk_values : ∀ xs, col_values (mk xs) = f <$> xs.
Hypothesis mk_column_of : ∀ xs, column_of ty (f <$> xs) = mk xs.

Lemma query_data_typed l h d i j ni nj xs vals :
  h !! l = Some d → pandas_frame d →
  resolve "id" d = Some (i, (ni, mk xs)) →
  resolve "value" d = Some (j, (nj, Int64Col vals)) →
  exchange_null (col_type (mk xs)) = ty →
  doubles_fit vals →
  ∃ rs : list (A * Z),
    rs ≡ₚ filter passes (zip xs vals)
    ∧ Sorted (λ p q, value_leb (f q.1) (f p.1) = true) rs
    ∧ query_data l h
      = new_frame [(ni, mk rs.*1); (nj, Int64Col rs.*2);
                   ("value2", Int64Col ((λ p, p.2 * 2) <$> rs))] h.
Proof.
  intros Hl Hv Hid Hval Hty Hfit.
  destruct (query_data_resolved l h d i j ni nj _ _ vals Hl Hv Hid Hval eq_refl)
    as [(_ & rv & Hperm & Hs & Hok)|[Hnot _]]; [|done].
  rewrite mk_values, filter_zip_lift in Hperm.
  apply fmap_Permutation_inv in Hperm as (rs & -> & Hperm).
  exists rs. split_and!; [done| |].
  - eapply Sorted_fmap_inv; [|exact Hs]. by intros p q.
  - rewrite Hok. f_equal. unfold out_frame_v.
    rewrite Hty.
    assert ((lift f <$> rs).*1 = f <$> rs.*1) as ->.
    { clear. induction rs as [|[a v] rs IH]; [done|]. csimpl. by rewrite IH. }
    assert ((lift f <$> rs).*2 = rs.*2) as ->.
    { clear. induction rs as [|[a v] rs IH]; [done|]. csimpl. by rewrite IH. }
    assert ((λ p : value * Z, p.2 * 2) <$> (lift f <$> rs)
            = (λ p : A * Z, p.2 * 2) <$> rs) as ->.
    { clear. induction rs as [|[a v] rs IH]; [done|]. csimpl. by rewrite IH. }
    by rewrite mk_column_of.
Qed.
End typed.

Lemma omap_get_int (zs : list Z) : omap get_int (VBigInt <$> zs) = zs.
Proof. induction zs; simpl; by f_equal. Qed.




(** ** [query_data] on [int64] columns *)

Lemma fits_or_overflows ps : fits ps ∨ overflows ps.
Proof.
  unfold fits, overflows.
  destruct (decide (Forall (λ p : Z * Z, qualifies p → in_int64 (p.2 * 2)) ps))
    as [Hall|Hex]; [by left|right].
  apply not_Forall_Exists in Hex; [|intros ?; apply _].
  eapply Exists_impl; [exact Hex|]. intros p Hp. simpl in Hp.
  destruct (decide (qualifies p)); [|naive_solver].
  destruct (decide (in_int64 (p.2 * 2))); naive_solver.
Qed.

Lemma fits_not_overflows ps : fits ps → ¬ overflows ps.
Proof.
  unfold fits, overflows. rewrite Forall_forall, Exists_exists.
  intros Hall (p & Hin & Hq & Hov). by apply Hov, Hall.
Qed.

Lemma fits_zip (ids vals : list Z) :
  length ids = length vals → fits (zip ids vals) ↔ doubles_fit vals.
Proof.
  intros Hlen. unfold fits, doubles_fit.
  rewrite <-(snd_zip ids vals) at 2 by lia. rewrite Forall_fmap.
  apply Forall_iff. intros [a v]. unfold qualifies. simpl. split.
  - intros Hp Hq. by apply double_fits, Hp.
  - intros Hp Hq. by apply double_fits, Hp.
Qed.

Lemma Sorted_id_desc_ids rs :
  Sorted id_desc rs → StronglySorted (λ a b, b ≤ a) rs.*1.
Proof.
  intros Hs. apply Sorted_StronglySorted; [intros a b c; lia|].
  by apply (Sorted_fmap fst id_desc).
Qed.

Section outcomes.
Context `{SortOperator}.

(** The two outcomes of [query_data] on a frame in which the binder
    resolves [id] and [value] to [int64] columns. *)
Lemma query_data_int l h d i j ni nj ids vals :
  h !! l = Some d → pandas_frame d →
  resolve "id" d = Some (i, (ni, Int64Col ids)) →
  resolve "value" d = Some (j, (nj, Int64Col vals)) →
  (fits (zip ids vals)
   ∧ ∃ rs, rs ≡ₚ filter qualifies (zip ids vals) ∧ Sorted id_desc rs
           ∧ query_data l h
             = new_frame [(ni, Int64Col rs.*1); (nj, Int64Col rs.*2);
                          ("value2", Int64Col ((λ p, p.2 * 2) <$> rs))] h)
  ∨ (overflows (zip ids vals)
     ∧ query_data l h = (Raise OutOfRangeException, h)).
Proof.
  intros Hl Hv Hid Hval.
  assert (length ids = length vals) as Hlen.
  { destruct (resolve_Some _ _ _ _ _ Hid) as [Hi _].
    destruct (resolve_Some _ _ _ _ _ Hval) as [Hj _].
    pose proof (frame_col_len _ _ _ _ Hv Hi) as Hli.
    pose proof (frame_col_len _ _ _ _ Hv Hj) as Hlj.
    simpl in *. congruence. }
  destruct (decide (doubles_fit vals)) as [Hfit|Hnot].
  - left. split; [by apply fits_zip|].
    destruct (query_data_typed VBigInt Int64Col BIGINT
                (λ _, eq_refl) (λ xs, f_equal Int64Col (omap_get_int xs))
                l h d i j ni nj ids vals Hl Hv Hid Hval eq_refl Hfit)
      as (rs & Hperm & Hs & Hok).
    exists rs. split_and!; [| |done].
    + by rewrite Hperm, filter_passes_qualifies.
    + eapply Sorted_impl; [|exact Hs].
      intros [a v] [b w]. unfold id_desc. simpl. by rewrite Z.leb_le.
  - right. split.
    + destruct (fits_or_overflows (zip ids vals)) as [Hfit|?]; [|done].
      by apply fits_zip in Hfit.
    + by destruct (query_data_resolved l h d i j ni nj _ _ vals
                     Hl Hv Hid Hval eq_refl) as [[? _]|[_ ?]].
Qed.

(** The two outcomes of [query_data] on an input frame. *)
Lemma query_data_cases l h d ids vals :
  input_frame h l d ids vals →
  (fits (zip ids vals)
   ∧ ∃ rs, rs ≡ₚ filter qualifies (zip ids vals) ∧ Sorted id_desc rs
           ∧ query_data l h = new_frame (out_frame rs) h)
  ∨ (overflows (zip ids vals)
     ∧ query_data l h = (Raise OutOfRangeException, h)).
Proof.
  intros (Hl & Hv & Hid & Hval).
  destruct (get_resolve _ _ _ Hv Hid) as (i & Hri).
  destruct (get_resolve _ _ _ Hv Hval) as (j & Hrj).
  exact (query_data_int l h d i j "id" "value" ids vals
           Hl (valid_df_frame d Hv) Hri Hrj).
Qed.
End outcomes.

Lemma input_frame_lengths h l d ids vals :
  input_frame h l d ids vals →
  length ids = nrows d ∧ length vals = nrows d.
Proof.
  intros (_ & Hv%valid_df_frame & (i & Hi)%get_lookup & (j & Hj)%get_lookup).
  split; [apply (frame_col_len _ _ _ _ Hv Hi)|apply (frame_col_len _ _ _ _ Hv Hj)].
Qed.

Lemma query_input_resolve h l d cid vals :
  query_input h l d cid vals →
  ∃ i j, resolve "id" d = Some (i, ("id", cid))
         ∧ resolve "value" d = Some (j, ("value", Int64Col vals)).
Proof.
  intros (_ & _ & Hid & Hui & Hval & Huv).
  destruct (get_unshadowed _ _ _ Hid Hui) as (i & Hi).
  destruct (get_unshadowed _ _ _ Hval Huv) as (j & Hj).
  by exists i, j.
Qed.

(** ** A second sort operator, and the order of ties *)


(** ** The rows of the result *)

Lemma scenario_A_rows rs :
  rs ≡ₚ filter qualifies (zip [1; 2; 3; 4] [10; 20; 30; 40]) →
  Sorted id_desc rs →
  rs = [(4, 40); (3, 30); (2, 20)].
Proof.
  intros Hperm Hs.
  assert (Transitive id_desc) by (intros a b c; unfold id_desc; lia).
  apply (Sorted_unique_strong id_desc); [|done| |].
  - intros [a v] [b w] Ha Hb Hab Hba. unfold id_desc in *. simpl in *.
    rewrite Hperm in Ha. vm_compute filter in Ha.
    set_unfold.
    destruct Ha as [?|[?|[?|[]]]], Hb as [?|[?|[?|[]]]]; simplify_eq;
      done || lia.
  - repeat constructor; unfold id_desc; simpl; lia.
  - rewrite Hperm. vm_compute filter.
    change [(4, 40); (3, 30); (2, 20)] with (reverse [(2, 20); (3, 30); (4, 40)]).
    by rewrite reverse_Permutation.
Qed.




(** ** [load_data] *)

(** C2. [load_data] takes nothing but the heap it allocates in; on every
    call it returns a new frame with the columns [id], [value] in that order
    and the four rows (1,10), (2,20), (3,30), (4,40); every object that was
    there before is unchanged; a second call returns the same data again (in
    another new object, the first one intact).  It is a total function:
    there is no error case. *)
Theorem load_data_fixed_frame (h : heap) :
  ∃ l h1 l' h2 d,
    load_data h = (l, h1) ∧ load_data h1 = (l', h2)
    ∧ d = [("id", Int64Col [1; 2; 3; 4]); ("value", Int64Col [10; 20; 30; 40])]
    ∧ columns d = ["id"; "value"]
    ∧ tbl_rows (pandas_scan d)
      = [[VBigInt 1; VBigInt 10]; [VBigInt 2; VBigInt 20];
         [VBigInt 3; VBigInt 30]; [VBigInt 4; VBigInt 40]]
    ∧ valid_df d
    ∧ h !! l = None ∧ h1 !! l = Some d
    ∧ (∀ k, k ≠ l → h1 !! k = h !! k)
    ∧ l' ≠ l ∧ h2 !! l' = Some d ∧ h2 !! l = Some d.
Proof.
  unfold load_data, pd_DataFrame. cbn [fmap list_fmap pd_column fst snd].
  set (d := [("id", Int64Col [1; 2; 3; 4]); ("value", Int64Col [10; 20; 30; 40])]).
  exists (alloc d h).1, (alloc d h).2,
    (alloc d (alloc d h).2).1, (alloc d (alloc d h).2).2, d.
  destruct (alloc_old d (alloc d h).2 _ _ (alloc_lookup d h)) as [Hne Hold].
  split_and!; try done.
  - split_and!.
    + by repeat constructor.
    + repeat constructor; unfold in_int64, int64_min, int64_max; simpl; lia.
    + apply (bool_decide_unpack _). by vm_compute.
  - apply alloc_fresh.
  - apply alloc_lookup.
  - intros k Hk. by apply alloc_frame.
  - apply alloc_lookup.
Qed.

(** ** The input and the heap *)

Section frame.
Context `{SortOperator}.

End frame.


(** ** The rows of the result *)

Section claims.
Context `{SortOperator}.

(** C1 (amended). For every input frame with integer columns [id] and
    [value] ([int64], the integer type of the model), each the first column
    of its name when case is ignored, in which the double of every value
    >= 20 is in the range of that type, [query_data] returns a new frame
    with the columns [id], [value], [value2] in that order, whose rows [rs]
    are exactly the input rows with value >= 20 (as a multiset: each one
    once for each time it occurs in the input, none else), each with
    [value2 = value * 2], in descending order of [id]; so it has no more
    rows than the input.  For id=[1,2,3,4], value=[10,20,30,40] the rows
    are (4,40,80), (3,30,60), (2,20,40) in that order. *)
Theorem query_data_rows l h d ids vals :
  query_input h l d (Int64Col ids) vals → fits (zip ids vals) →
  ∃ rs l' h',
    query_data l h = (Ok l', h')
    ∧ h' !! l' = Some [("id", Int64Col rs.*1);
                       ("value", Int64Col rs.*2);
                       ("value2", Int64Col ((λ p, p.2 * 2) <$> rs))]
    ∧ rs ≡ₚ filter qualifies (zip ids vals)
    ∧ StronglySorted (λ a b, b ≤ a) rs.*1
    ∧ (length rs ≤ nrows d)%nat
    ∧ (ids = [1; 2; 3; 4] → vals = [10; 20; 30; 40] →
       rs = [(4, 40); (3, 30); (2, 20)]).
Proof.
  intros Hin Hfit.
  destruct (query_input_resolve _ _ _ _ _ Hin) as (i & j & Hri & Hrj).
  destruct Hin as (Hl & Hv & _).
  destruct (query_data_int l h d i j "id" "value" ids vals Hl Hv Hri Hrj)
    as [(_ & rs & Hperm & Hs & Heq)|[Hov _]];
    [|by apply fits_not_overflows in Hov].
  exists rs, (alloc (out_frame rs) h).1, (alloc (out_frame rs) h).2.
  split_and!.
  - done.
  - apply alloc_lookup.
  - done.
  - by apply Sorted_id_desc_ids.
  - destruct (resolve_Some _ _ _ _ _ Hri) as [Hi _].
    pose proof (frame_col_len _ _ _ _ Hv Hi) as Hli. simpl in Hli.
    rewrite Hperm. etrans; [apply length_filter|].
    rewrite length_zip. lia.
  - intros -> ->. by apply scenario_A_rows.
Qed.




(** C6 (amended). For every input frame with columns [id] and [value],
    each the first column of its name when case is ignored, that has no
    rows (whatever the types of its columns), or in which [value] is an
    [int64] column and every value is < 20, [query_data] returns (raises
    nothing) a frame with no rows and the three columns [id], [value],
    [value2]. *)
Theorem query_data_empty_result l h d cid cval :
  h !! l = Some d → pandas_frame d →
  get "id" d = Some cid → unshadowed "id" d →
  get "value" d = Some cval → unshadowed "value" d →
  nrows d = 0%nat
  ∨ (∃ vals, cval = Int64Col vals ∧ Forall (λ v, v < 20) vals) →
  ∃ l' h' out,
    query_data l h = (Ok l', h')
    ∧ h' !! l' = Some out
    ∧ columns out = ["id"; "value"; "value2"]
    ∧ nrows out = 0%nat
    ∧ Forall (λ nc, col_len nc.2 = 0%nat) out.
Proof.
  intros Hl Hv Hid Hui Hval Huv Hnone.
  destruct (get_unshadowed _ _ _ Hid Hui) as (i & Hri).
  destruct (get_unshadowed _ _ _ Hval Huv) as (j & Hrj).
  assert (∃ vals, int_cells cval = Some vals ∧ Forall (λ v, v < 20) vals)
    as (vals & Hcells & Hlow).
  { destruct Hnone as [Hzero|(vals & -> & Hlow)]; [|by exists vals].
    destruct (resolve_Some _ _ _ _ _ Hrj) as [Hj _].
    pose proof (frame_col_len _ _ _ _ Hv Hj) as Hlj. rewrite Hzero in Hlj.
    exists []. split; [|constructor].
    destruct cval as [[|z zs]|[|s ss]]; by simplify_eq/=. }
  assert (filter qualifies_v (zip (col_values cid) vals) = []) as Hnil.
  { apply elem_of_nil_inv. intros [a v] [Hq Hin]%list_elem_of_filter.
    apply elem_of_zip_r in Hin. rewrite Forall_forall in Hlow.
    apply Hlow in Hin. unfold qualifies_v in Hq. simpl in *. lia. }
  destruct (query_data_resolved l h d i j "id" "value" cid cval vals
              Hl Hv Hri Hrj Hcells) as [(_ & rs & Hperm & _ & Hok)|[Hnot _]].
  - rewrite Hnil in Hperm. apply Permutation_nil_r in Hperm as ->.
    eexists _, _, _. split; [exact Hok|]. split; [apply alloc_lookup|].
    by destruct (exchange_null (col_type cid)); repeat constructor.
  - exfalso. apply Hnot. unfold doubles_fit.
    eapply Forall_impl; [exact Hlow|]. intros v Hlt Hq. simpl in *. lia.
Qed.
End claims.

Section errors.
Context `{SortOperator}.


End errors.

(** ** The data of [tests/test_main.py], evaluated *)

(** [test_load_data] *)
Example load_data_evaluated :
  (load_data ∅).2 !! (load_data ∅).1 = Some sample_df
  ∧ columns sample_df = ["id"; "value"].
Proof. split; reflexivity. Qed.

(** [test_query_data]: three rows, ids 4, 3, 2, values >= 20 and doubled. *)
Example query_data_evaluated :
  query_data (H:=merge_sorter) sample_loc sample_heap
  = new_frame [("id", Int64Col [4; 3; 2]);
               ("value", Int64Col [40; 30; 20]);
               ("value2", Int64Col [80; 60; 40])] sample_heap.
Proof. by vm_compute. Qed.

(** [test_query_data_empty_result]: no rows, the three columns. *)
Example query_data_empty_evaluated :
  query_data (H:=merge_sorter) (loc_of low_df) (heap_of low_df)
  = new_frame [("id", Int64Col []); ("value", Int64Col []);
               ("value2", Int64Col [])] (heap_of low_df).
Proof. by vm_compute. Qed.

(** ** Closed instances *)

(** Strings are not multiplied, whatever they spell. *)
Example query_data_text_value :
  query_data (H:=merge_sorter) (loc_of text_df) (heap_of text_df)
  = (Raise BinderException, heap_of text_df).
Proof. by vm_compute. Qed.

(** A frame without columns is refused when it is registered. *)
Example query_data_blank :
  query_data (H:=merge_sorter) (loc_of blank_df) (heap_of blank_df)
  = (Raise InvalidInputException, heap_of blank_df).
Proof. by vm_compute. Qed.

(** Two frames with integer columns [id] and [value] on which [query_data]
    does not return the rows with value >= 20.  On the first, whose only
    value is 2^62, it returns no rows at all: it raises.  On the second,
    where a column [ID] comes before [id], it returns the cells of [ID]
    under the name [ID], in the order of [ID]: rows (8,30,60), (7,20,40)
    and no column [id], where the rows of [id] and [value] are (1,20) and
    (2,30). *)
Lemma query_data_rows_counterexample :
  (pandas_frame big_df
   ∧ heap_of big_df !! loc_of big_df = Some big_df
   ∧ get "id" big_df = Some (Int64Col [1])
   ∧ get "value" big_df = Some (Int64Col [2 ^ 62])
   ∧ query_data (H:=merge_sorter) (loc_of big_df) (heap_of big_df)
     = (Raise OutOfRangeException, heap_of big_df))
  ∧ (pandas_frame shadow_df
     ∧ heap_of shadow_df !! loc_of shadow_df = Some shadow_df
     ∧ get "id" shadow_df = Some (Int64Col [1; 2])
     ∧ get "value" shadow_df = Some (Int64Col [20; 30])
     ∧ query_data (H:=merge_sorter) (loc_of shadow_df) (heap_of shadow_df)
       = new_frame [("ID", Int64Col [8; 7]);
                    ("value", Int64Col [30; 20]);
                    ("value2", Int64Col [60; 40])] (heap_of shadow_df)).
Proof.
  split; (split_and!; [by_evaluation|done|done|done|by vm_compute]).
Qed.


(** A frame with columns [id] and [value] whose only value is 10, on which
    [query_data] returns a row: a column [VALUE] comes before [value], and
    the statement reads that one. *)
Lemma query_data_empty_counterexample :
  pandas_frame clash_df
  ∧ heap_of clash_df !! loc_of clash_df = Some clash_df
  ∧ get "id" clash_df = Some (Int64Col [1])
  ∧ get "value" clash_df = Some (Int64Col [10])
  ∧ Forall (λ v, v < 20) [10]
  ∧ query_data (H:=merge_sorter) (loc_of clash_df) (heap_of clash_df)
    = new_frame [("id", Int64Col [1]);
                 ("VALUE", Int64Col [50]);
                 ("value2", Int64Col [100])] (heap_of clash_df).
Proof.
  split_and!; [by_evaluation|done|done|done| |by vm_compute].
  repeat constructor; lia.
Qed.




Lemma query_data_rows_witness :
  query_input sample_heap sample_loc sample_df
    (Int64Col [1; 2; 3; 4]) [10; 20; 30; 40]
  ∧ fits (zip [1; 2; 3; 4] [10; 20; 30; 40])
  ∧ ∃ l' h',
      query_data (H:=merge_sorter) sample_loc sample_heap = (Ok l', h')
      ∧ h' !! l' = Some [("id", Int64Col [4; 3; 2]);
                         ("value", Int64Col [40; 30; 20]);
                         ("value2", Int64Col [80; 60; 40])].
Proof.
  assert (query_input sample_heap sample_loc sample_df
            (Int64Col [1; 2; 3; 4]) [10; 20; 30; 40]) as Hin by by_evaluation.
  assert (fits (zip [1; 2; 3; 4] [10; 20; 30; 40])) as Hfit by by_evaluation.
  split_and!; [done..|].
  destruct (query_data_rows (H:=merge_sorter) _ _ _ _ _ Hin Hfit)
    as (rs & l' & h' & Hq & Hout & _ & _ & _ & Hrs).
  rewrite (Hrs eq_refl eq_refl) in Hout. by exists l', h'.
Defined.




(** Scenario B, and the frame pandas builds from two empty lists. *)
Lemma query_data_empty_result_witness :
  (∃ l' h' out,
     query_data (H:=merge_sorter) (loc_of low_df) (heap_of low_df) = (Ok l', h')
     ∧ h' !! l' = Some out
     ∧ columns out = ["id"; "value"; "value2"] ∧ nrows out = 0%nat
     ∧ Forall (λ nc, col_len nc.2 = 0%nat) out)
  ∧ (pd_DataFrame [("id", []); ("value", [])] ∅ = alloc empty_df ∅
     ∧ ∃ l' h' out,
         query_data (H:=merge_sorter) (loc_of empty_df) (heap_of empty_df)
         = (Ok l', h')
         ∧ h' !! l' = Some out
         ∧ columns out = ["id"; "value"; "value2"] ∧ nrows out = 0%nat
         ∧ Forall (λ nc, col_len nc.2 = 0%nat) out).
Proof.
  split; [|split; [done|]].
  - apply (query_data_empty_result (H:=merge_sorter) _ _ low_df
             (Int64Col [1; 2]) (Int64Col [10; 15]));
      [done|by_evaluation|done|by_evaluation|done|by_evaluation|].
    right. exists [10; 15]. split; [done|]. repeat constructor; lia.
  - apply (query_data_empty_result (H:=merge_sorter) _ _ empty_df
             (ObjectCol []) (ObjectCol []));
      [done|by_evaluation|done|by_evaluation|done|by_evaluation|by left].
Defined.





(** ** The errors of [query_data] *)

Section beyond.
Context `{SortOperator}.


(** X2. On a pandas frame in which the statement's [id] refers to a column
    and its [value] to an [int64] column (each the first column of that
    name when case is ignored), [query_data] returns a frame exactly when
    every value is below 2^62, and raises the overflow error exactly when
    some value is 2^62 or more; a value below the threshold of 20 never
    makes it fail, however negative. *)
Theorem query_data_succeeds_iff l h d i j ni nj cid vals :
  h !! l = Some d → pandas_frame d →
  resolve "id" d = Some (i, (ni, cid)) →
  resolve "value" d = Some (j, (nj, Int64Col vals)) →
  ((∃ l' h', query_data l h = (Ok l', h')) ↔ Forall (λ v, v < 2 ^ 62) vals)
  ∧ (query_data l h = (Raise OutOfRangeException, h)
     ↔ Exists (λ v, 2 ^ 62 ≤ v) vals).
Proof.
  intros Hl Hv Hri Hrj.
  assert (Forall (λ v, v < 2 ^ 62) vals ↔ ¬ Exists (λ v, 2 ^ 62 ≤ v) vals)
    as Hiff.
  { rewrite <-Forall_Exists_neg. apply Forall_iff. intros v. lia. }
  destruct (query_data_resolved l h d i j _ _ _ _ vals Hl Hv Hri Hrj eq_refl)
    as [(Hfit & rs & _ & _ & Hok)|[Hnot Hov]].
  - assert (¬ Exists (λ v, 2 ^ 62 ≤ v) vals) as Hno.
    { intros Hex%not_doubles_fit. by apply Hex. }
    rewrite Hok. split; split; try done.
    + intros _. by apply Hiff.
    + intros _. by eexists _, _.
  - apply not_doubles_fit in Hnot as Hex.
    rewrite Hov. split; split; try done.
    + by intros (? & ? & ?).
    + intros Hall. destruct Hiff as [Hto _]. by apply Hto in Hall.
Qed.
End beyond.

(** ** The [id] column at its own type *)



Section spelling.
Context `{SortOperator}.


End spelling.


(** ** The result as an input, and the assertions of the tests *)




Section result.
Context `{SortOperator}.

End result.




Section result_claims.
Context `{SortOperator}.


End result_claims.

(** ** The script and the tests *)

Lemma pd_DataFrame_alloc data (h : heap) l h1 :
  pd_DataFrame data h = (l, h1) →
  h1 !! l = Some ((λ kv, (kv.1, pd_column kv.2)) <$> data)
  ∧ h !! l = None
  ∧ (∀ k d, h !! k = Some d → h1 !! k = Some d).
Proof.
  unfold pd_DataFrame. intros Heq.
  set (d := (λ kv, (kv.1, pd_column kv.2)) <$> data) in *.
  assert (l = (alloc d h).1) as -> by by rewrite Heq.
  assert (h1 = (alloc d h).2) as -> by by rewrite Heq.
  split_and!; [apply alloc_lookup|apply alloc_fresh|].
  intros k x Hk. by apply alloc_old.
Qed.

Section script.
Context `{SortOperator}.

Lemma query_data_sample l h :
  h !! l = Some sample_df →
  query_data l h = new_frame (out_frame [(4, 40); (3, 30); (2, 20)]) h.
Proof.
  intros Hl.
  assert (input_frame h l sample_df [1; 2; 3; 4] [10; 20; 30; 40]) as Hin.
  { split_and!; [done|by_evaluation|done..]. }
  destruct (query_data_cases l h _ _ _ Hin)
    as [(_ & rs & Hperm & Hs & ->)|[Hov _]].
  - by rewrite (scenario_A_rows rs Hperm Hs).
  - exfalso. revert Hov. apply fits_not_overflows. by_evaluation.
Qed.

Lemma query_data_low l h :
  h !! l = Some low_df →
  query_data l h = new_frame (out_frame []) h.
Proof.
  intros Hl.
  assert (input_frame h l low_df [1; 2] [10; 15]) as Hin.
  { split_and!; [done|by_evaluation|done..]. }
  destruct (query_data_cases l h _ _ _ Hin)
    as [(_ & rs & Hperm & Hs & ->)|[Hov _]].
  - by apply Permutation_nil_r in Hperm as ->.
  - exfalso. revert Hov. apply fits_not_overflows. by_evaluation.
Qed.

(** X8. Run as a script, [main.py] never raises, whatever sort the engine
    uses and whatever objects exist: it prints the frame of [load_data]
    under "Input:", then under "Result:" the frame with the rows (4,40,80),
    (3,30,60), (2,20,40), and leaves every object that existed before as it
    was. *)
Theorem main_prints_input_and_result (h : heap) :
  ∃ h',
    main h
    = ([("Input:" +:+ newline,
         [("id", Int64Col [1; 2; 3; 4]); ("value", Int64Col [10; 20; 30; 40])]);
        ("Result:" +:+ newline,
         [("id", Int64Col [4; 3; 2]); ("value", Int64Col [40; 30; 20]);
          ("value2", Int64Col [80; 60; 40])])],
       Ok h')
    ∧ (∀ k d, h !! k = Some d → h' !! k = Some d).
Proof.
  unfold main.
  destruct (load_data h) as [df h1] eqn:Hload.
  destruct (pd_DataFrame_alloc _ _ _ _ Hload) as (Hdf & _ & Hkeep).
  change (h1 !! df = Some sample_df) in Hdf.
  rewrite (query_data_sample df h1 Hdf).
  set (out := out_frame [(4, 40); (3, 30); (2, 20)]).
  exists (alloc out h1).2. split.
  - unfold print, new_frame. rewrite Hdf.
    cbv iota beta. by rewrite alloc_lookup.
  - intros k d Hk. by apply alloc_old, Hkeep.
Qed.

(** X9. The three tests of [tests/test_main.py] pass whatever sort the
    engine uses and whatever objects exist when they start: none of their
    assertions depends on how the engine orders ties or on the identity of
    the frames. *)
Theorem tests_pass (h : heap) :
  test_load_data h = Passed
  ∧ test_query_data h = Passed
  ∧ test_query_data_empty_result h = Passed.
Proof.
  split_and!.
  - unfold test_load_data.
    destruct (load_data h) as [df h1] eqn:Hload.
    destruct (pd_DataFrame_alloc _ _ _ _ Hload) as (Hdf & _ & _).
    destruct (pd_DataFrame _ h1) as [ex h2] eqn:Hexp.
    destruct (pd_DataFrame_alloc _ _ _ _ Hexp) as (Hex & _ & Hkeep).
    by rewrite (Hkeep _ _ Hdf), Hex.
  - unfold test_query_data.
    destruct (pd_DataFrame _ h) as [df h1] eqn:Hpd.
    destruct (pd_DataFrame_alloc _ _ _ _ Hpd) as (Hdf & _ & _).
    change (h1 !! df = Some sample_df) in Hdf.
    rewrite (query_data_sample df h1 Hdf).
    set (out := out_frame [(4, 40); (3, 30); (2, 20)]).
    unfold new_frame. cbv iota beta. rewrite alloc_lookup. by vm_compute.
  - unfold test_query_data_empty_result.
    destruct (pd_DataFrame _ h) as [df h1] eqn:Hpd.
    destruct (pd_DataFrame_alloc _ _ _ _ Hpd) as (Hdf & _ & _).
    change (h1 !! df = Some low_df) in Hdf.
    rewrite (query_data_low df h1 Hdf).
    set (out := out_frame []).
    unfold new_frame. cbv iota beta. rewrite alloc_lookup. by vm_compute.
Qed.
End script.

(** ** Closed instances of the further properties *)


Lemma query_data_succeeds_iff_witness :
  sample_heap !! sample_loc = Some sample_df
  ∧ pandas_frame sample_df
  ∧ resolve "id" sample_df = Some (0%nat, ("id", Int64Col [1; 2; 3; 4]))
  ∧ resolve "value" sample_df = Some (1%nat, ("value", Int64Col [10; 20; 30; 40]))
  ∧ ∃ l' h', query_data (H:=merge_sorter) sample_loc sample_heap = (Ok l', h').
Proof.
  assert (pandas_frame sample_df) as Hv by by_evaluation.
  split_and!; [done..|].
  apply (query_data_succeeds_iff (H:=merge_sorter) sample_loc sample_heap
           sample_df 0 1 "id" "value" (Int64Col [1; 2; 3; 4]) [10; 20; 30; 40]
           eq_refl Hv eq_refl eq_refl).
  repeat constructor; lia.
Defined.





